(** * Pending operations of heketi: [apps/glusterfs/pendingop.go]

    A shallow embedding of the pending-operation data model (the two
    enumerations, the action and operation records, the typed accessor
    [ExpandSize] and the two [Name] methods), followed by the properties
    the design document states about them. *)

From Stdlib Require Import ZArith List String Ascii Lia Bool.
From stdpp Require Import gmap strings list fin_maps.
Import ListNotations.

Local Open Scope string_scope.
Local Open Scope Z_scope.
#[local] Set Warnings "-register-all".

(** ** Go values *)

(** Go's [int] and [int64]: mathematical integers; the file performs no
    arithmetic on them, so no wrap-around is ever needed. *)
Definition int := Z.
Definition int64 := Z.

(** A value of type [interface{}]: either nil or a value tagged with its
    dynamic type.  A type assertion [x.(int)] succeeds only on the
    dynamic type [int] itself. *)
Inductive GoValue : Type :=
| GoNil
| GoInt (v : int)
| GoInt64 (v : int64)
| GoString (s : string)
| GoBool (b : bool).

(** [v, ok := d.(int)]: on failure [v] is the zero value of [int]. *)
Definition assert_int (d : GoValue) : int * bool :=
  match d with
  | GoInt v => (v, true)
  | _ => (0, false)
  end.

(** [v, ok := d.(string)]. *)
Definition assert_string (d : GoValue) : string * bool :=
  match d with
  | GoString s => (s, true)
  | _ => (EmptyString, false)
  end.

(** A Go [error]: [None] is nil, [Some msg] an error whose [Error()] is
    [msg]. *)
Definition error := option string.

(** [fmt.Errorf] applied to a format without verbs and no arguments. *)
Definition Errorf (format : string) : error := Some format.

(** ** The enumerations *)

Definition PendingOperationType := int.

Definition OperationUnknown : PendingOperationType := 0.
Definition OperationCreateVolume : PendingOperationType := 1.
Definition OperationDeleteVolume : PendingOperationType := 2.
Definition OperationExpandVolume : PendingOperationType := 3.
Definition OperationCreateBlockVolume : PendingOperationType := 4.
Definition OperationDeleteBlockVolume : PendingOperationType := 5.
Definition OperationExpandBlockVolume : PendingOperationType := 6.
Definition OperationRemoveDevice : PendingOperationType := 7.
Definition OperationCloneVolume : PendingOperationType := 8.
Definition OperationBrickEvict : PendingOperationType := 9.

(** The constants of the first [const] block, in declaration order. *)
Definition declared_operation_types : list PendingOperationType :=
  [ OperationUnknown; OperationCreateVolume; OperationDeleteVolume;
    OperationExpandVolume; OperationCreateBlockVolume;
    OperationDeleteBlockVolume; OperationExpandBlockVolume;
    OperationRemoveDevice; OperationCloneVolume; OperationBrickEvict ].

Definition PendingChangeType := int.

Definition OpUnknown : PendingChangeType := 0.
Definition OpAddBrick : PendingChangeType := 1.
Definition OpAddVolume : PendingChangeType := 2.
Definition OpDeleteBrick : PendingChangeType := 3.
Definition OpDeleteVolume : PendingChangeType := 4.
Definition OpExpandVolume : PendingChangeType := 5.
Definition OpAddBlockVolume : PendingChangeType := 6.
Definition OpDeleteBlockVolume : PendingChangeType := 7.
Definition OpExpandBlockVolume : PendingChangeType := 8.
Definition OpRemoveDevice : PendingChangeType := 9.
Definition OpCloneVolume : PendingChangeType := 10.
Definition OpSnapshotVolume : PendingChangeType := 11.
Definition OpAddVolumeClone : PendingChangeType := 12.
Definition OpChildOperation : PendingChangeType := 13.
Definition OpParentOperation : PendingChangeType := 14.

(** The constants of the second [const] block, in declaration order. *)
Definition declared_change_types : list PendingChangeType :=
  [ OpUnknown; OpAddBrick; OpAddVolume; OpDeleteBrick; OpDeleteVolume;
    OpExpandVolume; OpAddBlockVolume; OpDeleteBlockVolume;
    OpExpandBlockVolume; OpRemoveDevice; OpCloneVolume; OpSnapshotVolume;
    OpAddVolumeClone; OpChildOperation; OpParentOperation ].

(** ** The records *)

Record PendingOperationAction : Type := {
  Change : PendingChangeType;
  Id : string;
  Delta : GoValue
}.

Record PendingItem : Type := {
  PendingItem_Id : string
}.

(** [Item] is the embedded [PendingItem]; [Type_] is the field [Type]. *)
Record PendingOperation : Type := {
  Item : PendingItem;
  Timestamp : int64;
  Type_ : PendingOperationType;
  Actions : list PendingOperationAction
}.

(** The zero values [PendingOperationAction{}] and [PendingOperation{}]. *)
Definition zero_PendingOperationAction : PendingOperationAction :=
  {| Change := 0; Id := EmptyString; Delta := GoNil |}.

Definition zero_PendingOperation : PendingOperation :=
  {| Item := {| PendingItem_Id := EmptyString |};
     Timestamp := 0; Type_ := 0; Actions := [] |}.

(** ** [ExpandSize] *)

Definition ExpandSize_message : string :=
  "Action delta for ExpandSize is missing/invalid".

Definition ExpandSize (a : PendingOperationAction) : int * error :=
  let fallthrough := (0, Errorf ExpandSize_message) in
  if Change a =? OpExpandVolume then
    let '(v, ok) := assert_int (Delta a) in
    if ok then (v, None) else fallthrough
  else fallthrough.

(** ** The [Name] methods *)

(** A [switch] whose cases are tried in order; the return after the
    switch is the last branch. *)
Definition PendingOperationType_Name (v : PendingOperationType) : string :=
  if v =? OperationCreateVolume then "create-volume"
  else if v =? OperationDeleteVolume then "delete-volume"
  else if v =? OperationExpandVolume then "expand-volume"
  else if v =? OperationCreateBlockVolume then "create-block-volume"
  else if v =? OperationDeleteBlockVolume then "delete-block-volume"
  else if v =? OperationExpandBlockVolume then "expand-block-volume"
  else if v =? OperationRemoveDevice then "remove-device"
  else if v =? OperationCloneVolume then "clone-volume"
  else if v =? OperationBrickEvict then "evict-brick"
  else "unknown".

Definition PendingChangeType_Name (c : PendingChangeType) : string :=
  if c =? OpAddBrick then "Add brick"
  else if c =? OpAddVolume then "Add volume"
  else if c =? OpDeleteBrick then "Delete brick"
  else if c =? OpDeleteVolume then "Delete volume"
  else if c =? OpExpandVolume then "Expand volume"
  else if c =? OpAddBlockVolume then "Add block volume"
  else if c =? OpDeleteBlockVolume then "Delete block volume"
  else if c =? OpExpandBlockVolume then "Expand block volume"
  else if c =? OpRemoveDevice then "Remove device"
  else if c =? OpCloneVolume then "Clone volume from"
  else if c =? OpSnapshotVolume then "Snapshot volume"
  else if c =? OpAddVolumeClone then "Expand volume to"
  else if c =? OpChildOperation then "Performing child operation"
  else if c =? OpParentOperation then "Belongs to parent operation"
  else "Unknown".

(** ** The ledger around the data model

    The registry, the action log and the rollback engine are described by
    the design document but are not part of [pendingop.go].  The
    definitions of this part follow the document's wording, section by
    section, over the records defined above. *)

(** Modelled from the spec: the error kinds of the ledger (section 7);
    the source file declares none of them. *)
Inductive ErrorKind : Type :=
| NotFound
| InvalidDelta
| Conflict
| CycleDetected
| StaleAction
| StorageConflict.

(** Modelled from the spec: an operation of the ledger returns its value
    or one of the error kinds. *)
Inductive result (A : Type) : Type :=
| Ok (a : A)
| Err (e : ErrorKind).
Arguments Ok {A} a.
Arguments Err {A} e.

(** The error monad of the ledger's operations, with stdpp's notation
    [x ← r; k]. *)
#[global] Instance result_ret : MRet result := fun A a => Ok a.
#[global] Instance result_bind : MBind result :=
  fun A B k r => match r with
                 | Ok a => k a
                 | Err e => Err e
                 end.

(** The spec's [Id], and an operation with its action list replaced. *)
Definition OperationId (op : PendingOperation) : string :=
  PendingItem_Id (Item op).

Definition with_actions (op : PendingOperation)
    (acts : list PendingOperationAction) : PendingOperation :=
  {| Item := Item op; Timestamp := Timestamp op; Type_ := Type_ op;
     Actions := acts |}.

(** *** Delta codec (section 4.2) *)

(** Modelled from the spec: [Validate], absent from the source.  The
    payload table: an integer for ExpandVolume, an operation-id string for
    ChildOperation and ParentOperation, none for every other kind. *)
Definition Validate (change : PendingChangeType) (delta : GoValue) : bool :=
  if change =? OpExpandVolume then snd (assert_int delta)
  else if (change =? OpChildOperation) || (change =? OpParentOperation)
       then snd (assert_string delta)
  else match delta with GoNil => true | _ => false end.

(** *** Operation registry (section 4.1) *)

(** Modelled from the spec: the persisted layout of section 6, external
    to the source.  The shared store holds one record per operation id,
    with the revision that compare-and-swap checks. *)
Abbreviation Registry := (gmap string (nat * PendingOperation)).

(** Modelled from the spec: the store's compare-and-swap primitive
    (section 6).  [seen] is the revision the caller read, [None] when it
    saw no record; a write against any other revision loses the race. *)
Definition CompareAndSwap (key : string) (seen : option nat)
    (value : PendingOperation) (reg : Registry) : result Registry :=
  match reg !! key, seen with
  | None, None => Ok (<[key := (0%nat, value)]> reg)
  | Some (rev, _), Some r =>
      if Nat.eqb rev r then Ok (<[key := (S rev, value)]> reg)
      else Err StorageConflict
  | _, _ => Err StorageConflict
  end.

(** Modelled from the spec: [Create], absent from the source.  [uuid] and
    [now] come from the identifier generator and the clock; the new record
    has no action and is persisted. *)
Definition Create (uuid : string) (now : int64) (kind : PendingOperationType)
    (reg : Registry) : result (PendingOperation * Registry) :=
  let op := {| Item := {| PendingItem_Id := uuid |}; Timestamp := now;
               Type_ := kind; Actions := [] |} in
  reg' ← CompareAndSwap uuid None op reg;
  Ok (op, reg').

(** Modelled from the spec: [Load], absent from the source. *)
Definition Load (id : string) (reg : Registry) : result PendingOperation :=
  match reg !! id with
  | Some (_, op) => Ok op
  | None => Err NotFound
  end.

(** Modelled from the spec: the write of [Save], absent from the source.
    It replaces the persisted action list of [op]'s id by a
    compare-and-swap against the revision [seen]. *)
Definition SaveAt (seen : nat) (op : PendingOperation) (reg : Registry)
    : result Registry :=
  match reg !! OperationId op with
  | None => Err NotFound
  | Some (_, stored) =>
      CompareAndSwap (OperationId op) (Some seen)
        (with_actions stored (Actions op)) reg
  end.

(** Modelled from the spec: [Save] as one caller runs it, absent from
    the source: the read of the current revision followed by the write,
    with no other writer in between. *)
Definition Save (op : PendingOperation) (reg : Registry) : result Registry :=
  match reg !! OperationId op with
  | None => Err NotFound
  | Some (rev, _) => SaveAt rev op reg
  end.

(** Modelled from the spec: [Delete], absent from the source; deleting an
    absent id is no error. *)
Definition Delete (id : string) (reg : Registry) : Registry := delete id reg.

(** *** Action log (section 2 and 4.2) *)

(** Modelled from the spec: [AppendAction], absent from the source.  The
    action is validated by the delta codec and appended in memory. *)
Definition AppendAction (op : PendingOperation) (change : PendingChangeType)
    (entity : string) (delta : GoValue) : result PendingOperation :=
  if Validate change delta
  then Ok (with_actions op
             (Actions op ++ [{| Change := change; Id := entity;
                                Delta := delta |}]))
  else Err InvalidDelta.

Fixpoint AppendActions (op : PendingOperation)
    (acts : list PendingOperationAction) : result PendingOperation :=
  match acts with
  | [] => Ok op
  | a :: rest =>
      op' ← AppendAction op (Change a) (Id a) (Delta a);
      AppendActions op' rest
  end.

(** A workflow that creates an operation of [kind], appends [acts] one by
    one, saves, and loads the record back by its id. *)
Definition save_then_load (uuid : string) (now : int64)
    (kind : PendingOperationType) (acts : list PendingOperationAction)
    (reg : Registry) : result (PendingOperation * PendingOperation) :=
  '(op0, reg1) ← Create uuid now kind reg;
  op ← AppendActions op0 acts;
  reg2 ← Save op reg1;
  loaded ← Load (OperationId op) reg2;
  Ok (op, loaded).

(** *** Entities (section 6 and the glossary) *)

(** Modelled from the spec: the entity stores, external to the source
    file.  One store per class of managed object. *)
Inductive EntityClass : Type := Brick | Volume | BlockVolume | Device.

#[global] Instance EntityClass_eq_dec : EqDecision EntityClass.
Proof. solve_decision. Defined.

#[global] Instance EntityClass_countable : Countable EntityClass.
Proof.
  refine (inj_countable'
            (fun c => match c with
                      | Brick => 0%nat | Volume => 1%nat
                      | BlockVolume => 2%nat | Device => 3%nat
                      end)
            (fun n => match n with
                      | 0%nat => Brick | 1%nat => Volume
                      | 2%nat => BlockVolume | _ => Device
                      end) _).
  intros []; reflexivity.
Defined.

(** Modelled from the spec: what the ledger reads and writes of an entity:
    its recorded size, whether a device is attached, and, while pending,
    the back-reference to the owning operation. *)
Record Entity : Type := {
  entity_size : int;
  entity_attached : bool;
  entity_pending : option string
}.

Abbreviation EntityKey := (EntityClass * string)%type.
Abbreviation Entities := (gmap (EntityClass * string) Entity).

Definition resize (e : Entity) (n : int) : Entity :=
  {| entity_size := n; entity_attached := entity_attached e;
     entity_pending := entity_pending e |}.

Definition attach (e : Entity) : Entity :=
  {| entity_size := entity_size e; entity_attached := true;
     entity_pending := entity_pending e |}.

Definition set_pending (e : Entity) (owner : option string) : Entity :=
  {| entity_size := entity_size e; entity_attached := entity_attached e;
     entity_pending := owner |}.

(** Modelled from the spec: entity enrollment (section 4.1), absent from
    the source.  The entity is marked pending for [opid]; an entity
    enrolled under another operation is a conflict. *)
Definition Enroll (opid : string) (key : EntityKey) (s : Entities)
    : result Entities :=
  match s !! key with
  | None => Err NotFound
  | Some e =>
      match entity_pending e with
      | None => Ok (<[key := set_pending e (Some opid)]> s)
      | Some owner => if String.eqb owner opid then Ok s else Err Conflict
      end
  end.

(** *** Rollback engine (section 4.3) *)

(** Modelled from the spec: the inverse effects of the table of section
    4.3; the source has no rollback code.  [Malformed] stands for an
    action whose payload is not the one its kind needs. *)
Inductive Inverse : Type :=
| DeleteEntity (key : EntityKey)
| RecreateEntity (key : EntityKey)
| ShrinkEntity (key : EntityKey) (delta : int)
| ReattachDevice (key : EntityKey)
| UnwindChild (child : string)
| NoInverse
| Malformed.

(** Modelled from the spec: the table of section 4.3, row by row.  Clones
    and snapshots are kept in the volume store.  The delta of an
    ExpandVolume action is read with the source's accessor [ExpandSize];
    an ExpandBlockVolume action stores no payload (section 3), so there
    is nothing to subtract unless it carries an integer.  Unknown and
    undeclared kinds have no row, hence no inverse. *)
Definition inverse (a : PendingOperationAction) : Inverse :=
  let c := Change a in
  if c =? OpAddBrick then DeleteEntity (Brick, Id a)
  else if c =? OpAddVolume then DeleteEntity (Volume, Id a)
  else if c =? OpAddBlockVolume then DeleteEntity (BlockVolume, Id a)
  else if c =? OpCloneVolume then DeleteEntity (Volume, Id a)
  else if c =? OpSnapshotVolume then DeleteEntity (Volume, Id a)
  else if c =? OpAddVolumeClone then DeleteEntity (Volume, Id a)
  else if c =? OpDeleteBrick then RecreateEntity (Brick, Id a)
  else if c =? OpDeleteVolume then RecreateEntity (Volume, Id a)
  else if c =? OpDeleteBlockVolume then RecreateEntity (BlockVolume, Id a)
  else if c =? OpExpandVolume then
    match ExpandSize a with
    | (v, None) => ShrinkEntity (Volume, Id a) v
    | (_, Some _) => Malformed
    end
  else if c =? OpExpandBlockVolume then
    match Delta a with
    | GoInt v => ShrinkEntity (BlockVolume, Id a) v
    | GoNil => ShrinkEntity (BlockVolume, Id a) 0
    | _ => Malformed
    end
  else if c =? OpRemoveDevice then ReattachDevice (Device, Id a)
  else if c =? OpChildOperation then
    let '(cid, ok) := assert_string (Delta a) in
    if ok then UnwindChild cid else Malformed
  else NoInverse.

(** The creation-class kinds: the first row of the table. *)
Definition creation_class (a : PendingOperationAction) : bool :=
  match inverse a with
  | DeleteEntity _ => true
  | _ => false
  end.

(** The entity an action names, if its kind has one. *)
Definition target (a : PendingOperationAction) : option EntityKey :=
  match inverse a with
  | DeleteEntity k | RecreateEntity k | ShrinkEntity k _
  | ReattachDevice k => Some k
  | UnwindChild _ | NoInverse | Malformed => None
  end.

(** Modelled from the spec: the outcome recorded for one action.
    [Raised StaleAction] is the non-fatal report of an absent target. *)
Inductive Outcome : Type :=
| Undone
| Skipped
| Raised (e : ErrorKind).

(** Modelled from the spec: the record of a walk, absent from the
    source.  One entry per action walked, in the order of the walk; [sub]
    is the walk of the linked child operation. *)
Inductive Trace : Type :=
| Step (a : PendingOperationAction) (inv : Inverse) (o : Outcome)
       (sub : list Trace).

Definition trace_action (t : Trace) : PendingOperationAction :=
  match t with Step a _ _ _ => a end.

Definition trace_inverse (t : Trace) : Inverse :=
  match t with Step _ inv _ _ => inv end.

Definition trace_outcome (t : Trace) : Outcome :=
  match t with Step _ _ o _ => o end.

(** Every outcome of a trace, those of the child walks included. *)
Fixpoint trace_outcomes (t : Trace) : list Outcome :=
  match t with
  | Step _ _ o sub => o :: flat_map trace_outcomes sub
  end.

(** The outcomes that are no failure: the inverse was applied, the kind
    has none, or the target was already gone. *)
Definition benign (o : Outcome) : Prop :=
  o = Undone \/ o = Skipped \/ o = Raised StaleAction.

Section RollbackEngine.

(** The pre-image of a deleted entity, which the calling workflow supplies
    through a side channel. *)
Variable preimage : EntityKey -> Entity.

(** Modelled from the spec: one inverse effect on the entity stores.  An
    absent target is reported as [StaleAction] and changes nothing. *)
Definition apply_inverse (inv : Inverse) (s : Entities) : Entities * Outcome :=
  match inv with
  | DeleteEntity k =>
      match s !! k with
      | None => (s, Raised StaleAction)
      | Some _ => (delete k s, Undone)
      end
  | RecreateEntity k => (<[k := preimage k]> s, Undone)
  | ShrinkEntity k v =>
      match s !! k with
      | None => (s, Raised StaleAction)
      | Some e => (<[k := resize e (entity_size e - v)]> s, Undone)
      end
  | ReattachDevice k =>
      match s !! k with
      | None => (s, Raised StaleAction)
      | Some e => (<[k := attach e]> s, Undone)
      end
  | UnwindChild _ | NoInverse => (s, Skipped)
  | Malformed => (s, Raised InvalidDelta)
  end.

(** Modelled from the spec: the inverse of one action, absent from the
    source; [child] unwinds a linked operation. *)
Definition undo (child : string -> Entities -> Entities * Outcome * list Trace)
    (a : PendingOperationAction) (s : Entities) : Entities * Trace :=
  match inverse a with
  | UnwindChild cid =>
      let '(s', o, sub) := child cid s in (s', Step a (UnwindChild cid) o sub)
  | inv =>
      let '(s', o) := apply_inverse inv s in (s', Step a inv o [])
  end.

(** Modelled from the spec: the walk over a list of actions, first to
    last, absent from the source; no report stops it. *)
Fixpoint walk (child : string -> Entities -> Entities * Outcome * list Trace)
    (l : list PendingOperationAction) (s : Entities)
    : Entities * list Trace :=
  match l with
  | [] => (s, [])
  | a :: rest =>
      let '(s1, t) := undo child a s in
      let '(s2, ts) := walk child rest s1 in
      (s2, t :: ts)
  end.

(** Modelled from the spec: the reverse walk over an operation's actions;
    a ChildOperation action recurses into the linked operation's own
    actions, to a bounded depth.  A child that is no longer in the
    registry is an absent target; a link below the bound is reported as a
    cycle. *)
Fixpoint unwind (reg : Registry) (depth : nat)
    (actions : list PendingOperationAction) (s : Entities)
    : Entities * list Trace :=
  walk (fun cid s0 =>
          match reg !! cid with
          | None => (s0, Raised StaleAction, [])
          | Some (_, childop) =>
              match depth with
              | O => (s0, Raised CycleDetected, [])
              | S d =>
                  let '(s', sub) := unwind reg d (Actions childop) s0 in
                  (s', Undone, sub)
              end
          end)
       (rev actions) s.

(** Modelled from the spec: the release of a pending lock, absent from
    the source.  The lock of the entity an action names is released when
    the entity is still there and [opid] owns it. *)
Definition release (opid : string) (s : Entities)
    (a : PendingOperationAction) : Entities :=
  match target a with
  | None => s
  | Some k =>
      match s !! k with
      | None => s
      | Some e =>
          match entity_pending e with
          | Some owner =>
              if String.eqb owner opid then <[k := set_pending e None]> s
              else s
          | None => s
          end
      end
  end.

(** Modelled from the spec: [Rollback], absent from the source.  It is
    invoked for an operation id: the persisted record is loaded, its
    actions are walked in reverse, the operation's locks are released and
    the record is retired.  When the record is already absent there is
    nothing left to undo, which is reported as [StaleAction]. *)
Definition Rollback (depth : nat) (id : string) (st : Entities * Registry)
    : (Entities * Registry) * (Outcome * list Trace) :=
  let '(s, reg) := st in
  match Load id reg with
  | Err _ => ((s, reg), (Raised StaleAction, []))
  | Ok op =>
      let '(s1, tr) := unwind reg depth (Actions op) s in
      ((fold_left (release id) (Actions op) s1, Delete id reg), (Undone, tr))
  end.

End RollbackEngine.

(** The handler [unwind] gives to [walk] at a given depth. *)
Definition unwind_child (preimage : EntityKey -> Entity) (reg : Registry)
    (depth : nat) (cid : string) (s0 : Entities)
    : Entities * Outcome * list Trace :=
  match reg !! cid with
  | None => (s0, Raised StaleAction, [])
  | Some (_, childop) =>
      match depth with
      | O => (s0, Raised CycleDetected, [])
      | S d =>
          let '(s', sub) := unwind preimage reg d (Actions childop) s0 in
          (s', Undone, sub)
      end
  end.

(** The child links of [l] that lead to persisted operations nest at most
    [depth] deep. *)
Fixpoint nests_within (reg : Registry) (depth : nat)
    (l : list PendingOperationAction) : Prop :=
  forall a cid r childop,
    In a l -> Change a = OpChildOperation -> Delta a = GoString cid ->
    reg !! cid = Some (r, childop) ->
    match depth with
    | O => False
    | S d => nests_within reg d (Actions childop)
    end.

(** The stores without the entity an action names; what undoing a
    creation leaves. *)
Definition forget (s : Entities) (a : PendingOperationAction) : Entities :=
  match target a with
  | Some k => delete k s
  | None => s
  end.

(** *** The scenarios of section 8 *)

Definition enrolled (size : int) (opid : string) : Entity :=
  {| entity_size := size; entity_attached := true;
     entity_pending := Some opid |}.

(** A brick and a volume that the operation "op-1" created and enrolled. *)
Definition created_entities : Entities :=
  <[(Brick, "brick-1") := enrolled 10 "op-1"]>
    (<[(Volume, "vol-2") := enrolled 10 "op-1"]> ∅).

(** Create(CreateVolume), AppendAction(AddBrick, "brick-1", none),
    AppendAction(AddVolume, "vol-2", none), Save; the workflow fails and
    the operation is rolled back. *)
Definition create_volume_scenario (preimage : EntityKey -> Entity)
    (depth : nat) : result ((Entities * Registry) * (Outcome * list Trace)) :=
  '(op0, reg1) ← Create "op-1" 0 OperationCreateVolume ∅;
  op1 ← AppendAction op0 OpAddBrick "brick-1" GoNil;
  op2 ← AppendAction op1 OpAddVolume "vol-2" GoNil;
  reg2 ← Save op2 reg1;
  Ok (Rollback preimage depth (OperationId op2) (created_entities, reg2)).

(** An operation that expanded the volume "vol-1" by 5, persisted, and
    the volume at its expanded size of 15. *)
Definition expand_operation : PendingOperation :=
  {| Item := {| PendingItem_Id := "op-1" |}; Timestamp := 0;
     Type_ := OperationExpandVolume;
     Actions := [ {| Change := OpExpandVolume; Id := "vol-1";
                     Delta := GoInt 5 |} ] |}.

Definition expanded_state : Entities * Registry :=
  (<[(Volume, "vol-1") := enrolled 15 "op-1"]> ∅,
   <["op-1" := (1%nat, expand_operation)]> ∅).

Definition no_preimage : EntityKey -> Entity :=
  fun _ => {| entity_size := 0; entity_attached := false;
              entity_pending := None |}.

(** ** The strings the [Name] methods can return *)

(** The names of the declared constants, in declaration order. *)
Definition operation_names : list string :=
  List.map PendingOperationType_Name declared_operation_types.

Definition change_names : list string :=
  List.map PendingChangeType_Name declared_change_types.

(** Character classes of the ASCII literals of the two switches. *)
Definition is_lower (c : ascii) : bool :=
  Nat.leb 97 (nat_of_ascii c) && Nat.leb (nat_of_ascii c) 122.

Definition is_upper (c : ascii) : bool :=
  Nat.leb 65 (nat_of_ascii c) && Nat.leb (nat_of_ascii c) 90.

Definition string_forallb (p : ascii -> bool) (s : string) : bool :=
  forallb p (list_ascii_of_string s).

(** Lower-case words joined by hyphens, as in "create-block-volume". *)
Definition hyphenated_lower (s : string) : bool :=
  string_forallb (fun c => is_lower c || Ascii.eqb c "-") s.

(** A capital letter followed by lower-case words separated by spaces, as
    in "Add block volume". *)
Definition capitalised_phrase (s : string) : bool :=
  match s with
  | EmptyString => false
  | String h t =>
      is_upper h && string_forallb (fun c => is_lower c || Ascii.eqb c " ") t
  end.

(** * Properties *)

(** ** Properties of the embedded code *)

Section Enumerations.

Lemma declared_operation_types_range (n : PendingOperationType) :
  In n declared_operation_types <-> 0 <= n <= 9.
Proof.
  unfold declared_operation_types, OperationUnknown, OperationCreateVolume,
    OperationDeleteVolume, OperationExpandVolume, OperationCreateBlockVolume,
    OperationDeleteBlockVolume, OperationExpandBlockVolume,
    OperationRemoveDevice, OperationCloneVolume, OperationBrickEvict.
  simpl. lia.
Qed.

Lemma declared_change_types_range (m : PendingChangeType) :
  In m declared_change_types <-> 0 <= m <= 14.
Proof.
  unfold declared_change_types, OpUnknown, OpAddBrick, OpAddVolume,
    OpDeleteBrick, OpDeleteVolume, OpExpandVolume, OpAddBlockVolume,
    OpDeleteBlockVolume, OpExpandBlockVolume, OpRemoveDevice, OpCloneVolume,
    OpSnapshotVolume, OpAddVolumeClone, OpChildOperation, OpParentOperation.
  simpl. lia.
Qed.

(** Walks down the chain of comparisons of a [Name] method, leaving one
    goal per case of the switch. *)
Ltac switch_cases :=
  repeat match goal with
         | |- context [Z.eqb ?x ?y] => destruct (Z.eqb_spec x y)
         end.

Lemma operation_name_out_of_range (n : PendingOperationType) :
  ~ In n declared_operation_types -> PendingOperationType_Name n = "unknown".
Proof.
  rewrite declared_operation_types_range. intros Hn.
  unfold PendingOperationType_Name, OperationCreateVolume,
    OperationDeleteVolume, OperationExpandVolume, OperationCreateBlockVolume,
    OperationDeleteBlockVolume, OperationExpandBlockVolume,
    OperationRemoveDevice, OperationCloneVolume, OperationBrickEvict.
  switch_cases; solve [reflexivity | lia].
Qed.

Lemma change_name_out_of_range (m : PendingChangeType) :
  ~ In m declared_change_types -> PendingChangeType_Name m = "Unknown".
Proof.
  rewrite declared_change_types_range. intros Hm.
  unfold PendingChangeType_Name, OpAddBrick, OpAddVolume,
    OpDeleteBrick, OpDeleteVolume, OpExpandVolume, OpAddBlockVolume,
    OpDeleteBlockVolume, OpExpandBlockVolume, OpRemoveDevice, OpCloneVolume,
    OpSnapshotVolume, OpAddVolumeClone, OpChildOperation, OpParentOperation.
  switch_cases; solve [reflexivity | lia].
Qed.

Lemma operation_name_nonempty (v : PendingOperationType) :
  PendingOperationType_Name v <> EmptyString.
Proof.
  unfold PendingOperationType_Name. switch_cases; discriminate.
Qed.

Lemma change_name_nonempty (c : PendingChangeType) :
  PendingChangeType_Name c <> EmptyString.
Proof.
  unfold PendingChangeType_Name. switch_cases; discriminate.
Qed.

(** A function whose images over a duplicate-free list are duplicate-free
    is injective on that list. *)
Lemma NoDup_map_injective {A B} (f : A -> B) (l : list A) :
  NoDup (List.map f l) ->
  forall x y, In x l -> In y l -> f x = f y -> x = y.
Proof.
  induction l as [|a l IH]; simpl; intros Hnd x y Hx Hy Hxy; [tauto|].
  apply NoDup_cons in Hnd as [Hnotin Hnd].
  rewrite list_elem_of_In in Hnotin.
  destruct Hx as [<-|Hx], Hy as [<-|Hy]; auto.
  - exfalso. apply Hnotin. rewrite Hxy. now apply List.in_map.
  - exfalso. apply Hnotin. rewrite <- Hxy. now apply List.in_map.
Qed.

Lemma operation_names_nodup :
  NoDup (List.map PendingOperationType_Name declared_operation_types).
Proof. apply (bool_decide_unpack _). vm_compute. exact I. Qed.

Lemma change_names_nodup :
  NoDup (List.map PendingChangeType_Name declared_change_types).
Proof. apply (bool_decide_unpack _). vm_compute. exact I. Qed.

End Enumerations.

Section ExpandSizeProperties.

Example ExpandSize_of_5 :
  ExpandSize {| Change := OpExpandVolume; Id := "vol-1"; Delta := GoInt 5 |}
  = (5, None).
Proof. reflexivity. Qed.

Example ExpandSize_wrong_kind :
  ExpandSize {| Change := OpAddVolume; Id := "vol-1"; Delta := GoInt 5 |}
  = (0, Some "Action delta for ExpandSize is missing/invalid").
Proof. reflexivity. Qed.

Lemma ExpandSize_int (a : PendingOperationAction) (v : int) :
  Change a = OpExpandVolume -> Delta a = GoInt v -> ExpandSize a = (v, None).
Proof.
  intros Hc Hd. unfold ExpandSize. rewrite Hc, Hd. reflexivity.
Qed.

Lemma ExpandSize_cases (a : PendingOperationAction) :
  (exists v, Change a = OpExpandVolume /\ Delta a = GoInt v
             /\ ExpandSize a = (v, None))
  \/ ((Change a <> OpExpandVolume \/ forall v, Delta a <> GoInt v)
      /\ ExpandSize a = (0, Some ExpandSize_message)).
Proof.
  unfold ExpandSize.
  destruct (Z.eqb_spec (Change a) OpExpandVolume) as [Hc|Hc].
  - destruct (Delta a) as [|v|v|s|b] eqn:Hd; simpl;
      try (right; split; [right; intros w; discriminate | reflexivity]).
    left. exists v. auto.
  - right. split; [left; exact Hc | reflexivity].
Qed.

(** C1. [ExpandSize] returns [v] and a nil error exactly when the change
    kind is [OpExpandVolume] and the delta holds the [int] [v]; in every
    other case (another change kind, a nil delta, a delta of another
    dynamic type) it returns a non-nil error. *)
Theorem ExpandSize_succeeds_iff (a : PendingOperationAction) :
  (forall v : int,
      ExpandSize a = (v, None)
      <-> Change a = OpExpandVolume /\ Delta a = GoInt v)
  /\ ((~ exists v : int, Change a = OpExpandVolume /\ Delta a = GoInt v)
      -> exists msg, snd (ExpandSize a) = Some msg).
Proof.
  destruct (ExpandSize_cases a) as [(w & Hc & Hd & Hr)|[Hno Hr]].
  - split.
    + intros v. rewrite Hr. split.
      * intros [= ->]. auto.
      * intros [_ Hv]. rewrite Hd in Hv. now injection Hv as ->.
    + intros Hnone. exfalso. apply Hnone. eauto.
  - split.
    + intros v. rewrite Hr. split; [discriminate|].
      intros [Hc Hd]. destruct Hno as [Hno|Hno]; [easy | now apply Hno in Hd].
    + intros _. rewrite Hr. simpl. eauto.
Qed.

(** C4, as the code has it. When the change kind is [OpExpandVolume] and
    the delta holds the [int] [v], [ExpandSize] returns [v] and a nil
    error; for every other change kind it returns the error. *)
Theorem ExpandSize_by_change_kind (a b : PendingOperationAction) (v : int) :
  Change a = OpExpandVolume -> Delta a = GoInt v ->
  Change b <> OpExpandVolume ->
  ExpandSize a = (v, None)
  /\ ExpandSize b = (0, Some ExpandSize_message).
Proof.
  intros Hc Hd Hb. split; [now apply ExpandSize_int|].
  unfold ExpandSize. destruct (Z.eqb_spec (Change b) OpExpandVolume); easy.
Qed.

Lemma ExpandSize_by_change_kind_witness :
  ExpandSize {| Change := OpExpandVolume; Id := "vol-1"; Delta := GoInt 5 |}
  = (5, None)
  /\ ExpandSize {| Change := OpAddBrick; Id := "brick-1"; Delta := GoInt 5 |}
     = (0, Some ExpandSize_message).
Proof.
  apply (ExpandSize_by_change_kind
           {| Change := OpExpandVolume; Id := "vol-1"; Delta := GoInt 5 |}
           {| Change := OpAddBrick; Id := "brick-1"; Delta := GoInt 5 |} 5);
    [reflexivity | reflexivity | discriminate].
Defined.

(** C4 as stated fails: an action of kind [OpExpandVolume] whose delta is
    nil makes [ExpandSize] return the error. *)
Lemma ExpandSize_nil_delta_fails :
  Change {| Change := OpExpandVolume; Id := "vol-1"; Delta := GoNil |}
  = OpExpandVolume
  /\ ExpandSize {| Change := OpExpandVolume; Id := "vol-1"; Delta := GoNil |}
     = (0, Some ExpandSize_message)
  /\ ~ (forall a : PendingOperationAction,
           Change a = OpExpandVolume -> snd (ExpandSize a) = None).
Proof.
  split; [reflexivity|]. split; [reflexivity|].
  intros H.
  specialize (H {| Change := OpExpandVolume; Id := "vol-1"; Delta := GoNil |}
                eq_refl).
  discriminate H.
Qed.

(** The type assertion is on [int] alone: a delta holding an [int64] is
    refused like any other. *)
Example ExpandSize_int64_delta :
  ExpandSize {| Change := OpExpandVolume; Id := "vol-1"; Delta := GoInt64 5 |}
  = (0, Some ExpandSize_message).
Proof. reflexivity. Qed.

(** C9. Whenever [ExpandSize] fails it returns 0 and the one fixed
    message, whichever of the two causes made it fail. *)
Theorem ExpandSize_failure_is_uniform (a : PendingOperationAction) :
  snd (ExpandSize a) <> None ->
  ExpandSize a = (0, Some "Action delta for ExpandSize is missing/invalid").
Proof.
  intros Hfail.
  destruct (ExpandSize_cases a) as [(w & _ & _ & Hr)|[_ Hr]].
  - rewrite Hr in Hfail. now contradiction Hfail.
  - exact Hr.
Qed.

Lemma ExpandSize_failure_is_uniform_witness :
  ExpandSize {| Change := OpAddVolume; Id := "vol-2"; Delta := GoInt 7 |}
  = (0, Some "Action delta for ExpandSize is missing/invalid")
  /\ ExpandSize {| Change := OpExpandVolume; Id := "vol-2";
                   Delta := GoString "7" |}
     = (0, Some "Action delta for ExpandSize is missing/invalid").
Proof.
  split.
  - apply (ExpandSize_failure_is_uniform
             {| Change := OpAddVolume; Id := "vol-2"; Delta := GoInt 7 |}).
    discriminate.
  - apply (ExpandSize_failure_is_uniform
             {| Change := OpExpandVolume; Id := "vol-2";
                Delta := GoString "7" |}).
    discriminate.
Defined.

End ExpandSizeProperties.

Section NameProperties.

Example Name_of_operation_3 : PendingOperationType_Name 3 = "expand-volume".
Proof. reflexivity. Qed.

Example Name_of_change_12 : PendingChangeType_Name 12 = "Expand volume to".
Proof. reflexivity. Qed.

Example Name_of_operation_minus_1 : PendingOperationType_Name (-1) = "unknown".
Proof. reflexivity. Qed.

(** C2. Both [Name] methods are total functions and return a non-empty
    string on every integer, declared or not. *)
Theorem Name_nonempty (v : PendingOperationType) (c : PendingChangeType) :
  PendingOperationType_Name v <> EmptyString
  /\ PendingChangeType_Name c <> EmptyString.
Proof.
  split; [apply operation_name_nonempty | apply change_name_nonempty].
Qed.

(** C3, as the code has it. A value that is none of the declared
    constants is named "unknown" by the operation type and "Unknown",
    with a capital, by the change type. *)
Theorem Name_out_of_range (n : PendingOperationType) (m : PendingChangeType) :
  ~ In n declared_operation_types ->
  ~ In m declared_change_types ->
  PendingOperationType_Name n = "unknown"
  /\ PendingChangeType_Name m = "Unknown".
Proof.
  intros Hn Hm. split.
  - now apply operation_name_out_of_range.
  - now apply change_name_out_of_range.
Qed.

Lemma Name_out_of_range_witness :
  PendingOperationType_Name 10 = "unknown"
  /\ PendingChangeType_Name (-1) = "Unknown".
Proof.
  apply (Name_out_of_range 10 (-1)).
  - rewrite declared_operation_types_range. lia.
  - rewrite declared_change_types_range. lia.
Defined.

(** C3 as stated fails: 15 is no declared change type and its name is
    not the string "unknown". *)
Lemma change_name_15_not_lowercase :
  ~ In 15 declared_change_types
  /\ PendingChangeType_Name 15 = "Unknown"
  /\ PendingChangeType_Name 15 <> "unknown"
  /\ ~ (forall m : PendingChangeType,
          ~ In m declared_change_types -> PendingChangeType_Name m = "unknown").
Proof.
  assert (~ In 15 declared_change_types) as Hout
      by (rewrite declared_change_types_range; lia).
  split; [exact Hout|].
  split; [reflexivity|]. split; [discriminate|].
  intros H. specialize (H 15 Hout). discriminate H.
Qed.

(** C5. On the declared constants of either enumeration [Name] is
    injective, and its results are non-empty. *)
Theorem Name_injective_on_declared
    (v w : PendingOperationType) (c d : PendingChangeType) :
  In v declared_operation_types -> In w declared_operation_types -> v <> w ->
  In c declared_change_types -> In d declared_change_types -> c <> d ->
  (PendingOperationType_Name v <> PendingOperationType_Name w
   /\ PendingOperationType_Name v <> EmptyString
   /\ PendingOperationType_Name w <> EmptyString)
  /\ (PendingChangeType_Name c <> PendingChangeType_Name d
      /\ PendingChangeType_Name c <> EmptyString
      /\ PendingChangeType_Name d <> EmptyString).
Proof.
  intros Hv Hw Hvw Hc Hd Hcd.
  repeat split; try apply operation_name_nonempty;
    try apply change_name_nonempty.
  - intros Heq. apply Hvw.
    exact (NoDup_map_injective _ _ operation_names_nodup v w Hv Hw Heq).
  - intros Heq. apply Hcd.
    exact (NoDup_map_injective _ _ change_names_nodup c d Hc Hd Heq).
Qed.

Lemma Name_injective_on_declared_witness :
  (PendingOperationType_Name OperationUnknown
   <> PendingOperationType_Name OperationBrickEvict
   /\ PendingOperationType_Name OperationUnknown <> EmptyString
   /\ PendingOperationType_Name OperationBrickEvict <> EmptyString)
  /\ (PendingChangeType_Name OpExpandVolume
      <> PendingChangeType_Name OpAddVolumeClone
      /\ PendingChangeType_Name OpExpandVolume <> EmptyString
      /\ PendingChangeType_Name OpAddVolumeClone <> EmptyString).
Proof.
  apply (Name_injective_on_declared OperationUnknown OperationBrickEvict
           OpExpandVolume OpAddVolumeClone);
    first [ discriminate | rewrite declared_operation_types_range; vm_compute; intuition discriminate
          | rewrite declared_change_types_range; vm_compute; intuition discriminate ].
Defined.

(** C10. The zero value of either enumeration is its declared Unknown
    constant, so zero-valued records carry it; [Name] gives that constant
    "unknown" (operation type) and "Unknown" (change type), the very
    strings it gives to every undeclared value. *)
Theorem Unknown_is_zero_value_and_shares_its_name :
  OperationUnknown = 0 /\ OpUnknown = 0
  /\ Type_ zero_PendingOperation = OperationUnknown
  /\ Change zero_PendingOperationAction = OpUnknown
  /\ PendingOperationType_Name OperationUnknown = "unknown"
  /\ PendingChangeType_Name OpUnknown = "Unknown"
  /\ (forall n, ~ In n declared_operation_types ->
                PendingOperationType_Name n
                = PendingOperationType_Name OperationUnknown)
  /\ (forall m, ~ In m declared_change_types ->
                PendingChangeType_Name m = PendingChangeType_Name OpUnknown).
Proof.
  repeat split.
  - intros n Hn. now rewrite operation_name_out_of_range.
  - intros m Hm. now rewrite change_name_out_of_range.
Qed.

End NameProperties.

(** ** Properties of the ledger as the design document describes it *)

Section RegistryProperties.

Implicit Types (reg : Registry) (op : PendingOperation).

Lemma with_actions_twice op (l l' : list PendingOperationAction) :
  with_actions (with_actions op l) l' = with_actions op l'.
Proof. reflexivity. Qed.

Lemma AppendActions_valid (acts : list PendingOperationAction) op :
  forallb (fun a => Validate (Change a) (Delta a)) acts = true ->
  AppendActions op acts = Ok (with_actions op (Actions op ++ acts)).
Proof.
  revert op. induction acts as [|a acts IH]; intros op Hvalid; simpl.
  - rewrite app_nil_r. now destruct op.
  - simpl in Hvalid. apply andb_prop in Hvalid as [Ha Hacts].
    unfold AppendAction. rewrite Ha. cbn.
    rewrite IH by assumption. destruct a; cbn.
    now rewrite <- app_assoc.
Qed.

(** An invalid payload is refused and nothing is appended. *)
Lemma AppendAction_invalid op change entity delta :
  Validate change delta = false ->
  AppendAction op change entity delta = Err InvalidDelta.
Proof. intros H. unfold AppendAction. now rewrite H. Qed.

Lemma Create_fresh uuid now kind reg :
  reg !! uuid = None ->
  Create uuid now kind reg
  = Ok ({| Item := {| PendingItem_Id := uuid |}; Timestamp := now;
           Type_ := kind; Actions := [] |},
        <[uuid := (0%nat,
                   {| Item := {| PendingItem_Id := uuid |}; Timestamp := now;
                      Type_ := kind; Actions := [] |})]> reg).
Proof. intros H. unfold Create, CompareAndSwap. now rewrite H. Qed.

(** [Save] replaces the action list of the persisted record and nothing
    else of it; [Load] then returns that record. *)
Lemma Save_Load op reg reg' :
  Save op reg = Ok reg' ->
  exists rev stored,
    reg !! OperationId op = Some (rev, stored)
    /\ reg' = <[OperationId op := (S rev, with_actions stored (Actions op))]> reg
    /\ Load (OperationId op) reg' = Ok (with_actions stored (Actions op)).
Proof.
  unfold Save, SaveAt, CompareAndSwap.
  destruct (reg !! OperationId op) as [[rev stored]|] eqn:Hl; [|discriminate].
  rewrite Nat.eqb_refl. intros [= <-].
  exists rev, stored. repeat split.
  unfold Load. now rewrite lookup_insert_eq.
Qed.

(** A write against a revision that is no longer current loses the race. *)
Lemma SaveAt_lost_race (seen rev : nat) op stored reg :
  reg !! OperationId op = Some (rev, stored) -> seen <> rev ->
  SaveAt seen op reg = Err StorageConflict.
Proof.
  intros Hl Hne. unfold SaveAt, CompareAndSwap. rewrite Hl.
  destruct (Nat.eqb_spec rev seen); [congruence | reflexivity].
Qed.

(** Of two operations enrolling the same free entity, the first succeeds
    and the second is refused with [Conflict]. *)
Lemma Enroll_excludes (first second : string) (key : EntityKey)
    (s s' : Entities) :
  (exists e, s !! key = Some e /\ entity_pending e = None) ->
  first <> second ->
  Enroll first key s = Ok s' ->
  Enroll second key s' = Err Conflict.
Proof.
  intros (e & Hl & Hfree) Hne. unfold Enroll. rewrite Hl, Hfree.
  intros [= <-]. rewrite lookup_insert_eq. cbn.
  destruct (String.eqb_spec first second); [contradiction | reflexivity].
Qed.

(** [Save] of an operation that was never created is refused. *)
Lemma Save_unknown op reg :
  reg !! OperationId op = None -> Save op reg = Err NotFound.
Proof. intros H. unfold Save. now rewrite H. Qed.

(** C8. For every kind and every sequence of valid actions, the operation
    created with a fresh id, filled by [AppendAction] and persisted by
    [Save] is returned unchanged by [Load] on its id. *)
Theorem Save_then_Load_roundtrip (uuid : string) (now : int64)
    (kind : PendingOperationType) (acts : list PendingOperationAction) reg :
  reg !! uuid = None ->
  forallb (fun a => Validate (Change a) (Delta a)) acts = true ->
  let op := {| Item := {| PendingItem_Id := uuid |}; Timestamp := now;
               Type_ := kind; Actions := acts |} in
  save_then_load uuid now kind acts reg = Ok (op, op).
Proof.
  intros Hfresh Hvalid op. unfold save_then_load.
  rewrite (Create_fresh _ _ _ _ Hfresh). cbn.
  rewrite (AppendActions_valid _ _ Hvalid). cbn.
  unfold Save, SaveAt, CompareAndSwap, OperationId, with_actions. cbn.
  rewrite lookup_insert_eq. cbn.
  unfold Load. cbn. now rewrite lookup_insert_eq.
Qed.

Lemma Save_then_Load_roundtrip_witness :
  save_then_load "op-1" 7 OperationExpandVolume
    [ {| Change := OpExpandVolume; Id := "vol-1"; Delta := GoInt 5 |};
      {| Change := OpAddBrick; Id := "brick-1"; Delta := GoNil |} ] ∅
  = Ok ({| Item := {| PendingItem_Id := "op-1" |}; Timestamp := 7;
           Type_ := OperationExpandVolume;
           Actions :=
             [ {| Change := OpExpandVolume; Id := "vol-1";
                  Delta := GoInt 5 |};
               {| Change := OpAddBrick; Id := "brick-1"; Delta := GoNil |} ]
        |},
        {| Item := {| PendingItem_Id := "op-1" |}; Timestamp := 7;
           Type_ := OperationExpandVolume;
           Actions :=
             [ {| Change := OpExpandVolume; Id := "vol-1";
                  Delta := GoInt 5 |};
               {| Change := OpAddBrick; Id := "brick-1"; Delta := GoNil |} ]
        |}).
Proof.
  apply (Save_then_Load_roundtrip "op-1" 7 OperationExpandVolume
           [ {| Change := OpExpandVolume; Id := "vol-1"; Delta := GoInt 5 |};
             {| Change := OpAddBrick; Id := "brick-1"; Delta := GoNil |} ] ∅);
    reflexivity.
Defined.

End RegistryProperties.

Section RollbackProperties.

Variable preimage : EntityKey -> Entity.

Implicit Types (s : Entities) (reg : Registry) (op : PendingOperation)
  (a : PendingOperationAction) (l : list PendingOperationAction)
  (child : string -> Entities -> Entities * Outcome * list Trace).

Lemma unwind_unfold reg (depth : nat) l s :
  unwind preimage reg depth l s
  = walk preimage (unwind_child preimage reg depth) (rev l) s.
Proof. destruct depth; reflexivity. Qed.

Lemma walk_app child l1 l2 s :
  walk preimage child (l1 ++ l2) s
  = let '(s1, t1) := walk preimage child l1 s in
    let '(s2, t2) := walk preimage child l2 s1 in
    (s2, (t1 ++ t2)%list).
Proof.
  revert s. induction l1 as [|a l1 IH]; intros s; cbn.
  - now destruct (walk preimage child l2 s).
  - destruct (undo preimage child a s) as [s1 t]. rewrite IH.
    destruct (walk preimage child l1 s1) as [s2 ts].
    now destruct (walk preimage child l2 s2).
Qed.

Lemma unwind_single reg (depth : nat) a s :
  unwind preimage reg depth [a] s
  = let '(s1, t) := undo preimage (unwind_child preimage reg depth) a s in
    (s1, [t]).
Proof. rewrite unwind_unfold. cbn. now destruct (undo _ _ a s). Qed.

(** The action appended last is undone first. *)
Lemma unwind_snoc reg (depth : nat) l a s :
  unwind preimage reg depth (l ++ [a]) s
  = let '(s1, t1) := unwind preimage reg depth [a] s in
    let '(s2, t2) := unwind preimage reg depth l s1 in
    (s2, (t1 ++ t2)%list).
Proof.
  rewrite unwind_single, !unwind_unfold, rev_app_distr. cbn.
  destruct (undo _ _ a s) as [s1 t]. rewrite unwind_unfold.
  now destruct (walk _ _ (rev l) s1).
Qed.

(** Every entry of a walk records the action it undid and the inverse the
    table gives for it. *)
Lemma undo_records child a s :
  trace_action (undo preimage child a s).2 = a
  /\ trace_inverse (undo preimage child a s).2 = inverse a.
Proof.
  unfold undo.
  destruct (inverse a) as [k|k|k d|k|cid| |] eqn:Hinv;
    try (destruct (apply_inverse preimage _ s) as [s' o]; cbn; now auto).
  destruct (child cid s) as [[s' o] sub]. cbn. auto.
Qed.

Lemma walk_in_order child l s :
  map trace_action (walk preimage child l s).2 = l
  /\ map trace_inverse (walk preimage child l s).2 = map inverse l.
Proof.
  revert s. induction l as [|a l IH]; intros s; cbn; [auto|].
  pose proof (undo_records child a s) as [Ha Hi].
  destruct (undo preimage child a s) as [s1 t] eqn:Hu. cbn in Ha, Hi.
  specialize (IH s1).
  destruct (walk preimage child l s1) as [s2 ts]. cbn in *.
  destruct IH as (IH1 & IH2).
  rewrite Ha, Hi, IH1, IH2. auto.
Qed.

(** [Rollback] of a persisted record, and of an id without record. *)
Lemma Rollback_persisted (depth : nat) (id : string) (r : nat) op s reg :
  reg !! id = Some (r, op) ->
  Rollback preimage depth id (s, reg)
  = ((fold_left (release id) (Actions op)
        (unwind preimage reg depth (Actions op) s).1,
      delete id reg),
     (Undone, (unwind preimage reg depth (Actions op) s).2)).
Proof.
  intros H. unfold Rollback, Load, Delete. rewrite H.
  now destruct (unwind preimage reg depth (Actions op) s).
Qed.


(** *** The rows of the table, as effects on the stores *)

Lemma inverse_creation_row a (cls : EntityClass) :
  In (Change a, cls)
     [ (OpAddBrick, Brick); (OpAddVolume, Volume);
       (OpAddBlockVolume, BlockVolume); (OpCloneVolume, Volume);
       (OpSnapshotVolume, Volume); (OpAddVolumeClone, Volume) ] ->
  inverse a = DeleteEntity (cls, Id a).
Proof.
  destruct a as [c id d]. cbn. intros H.
  repeat (destruct H as [[= <- <-]|H]; [reflexivity|]). contradiction.
Qed.

Lemma inverse_deletion_row a (cls : EntityClass) :
  In (Change a, cls)
     [ (OpDeleteBrick, Brick); (OpDeleteVolume, Volume);
       (OpDeleteBlockVolume, BlockVolume) ] ->
  inverse a = RecreateEntity (cls, Id a).
Proof.
  destruct a as [c id d]. cbn. intros H.
  repeat (destruct H as [[= <- <-]|H]; [reflexivity|]). contradiction.
Qed.

Lemma inverse_expansion_row a (cls : EntityClass) (v : int) :
  In (Change a, cls)
     [ (OpExpandVolume, Volume); (OpExpandBlockVolume, BlockVolume) ] ->
  Delta a = GoInt v ->
  inverse a = ShrinkEntity (cls, Id a) v.
Proof.
  destruct a as [c id d]. cbn. intros H ->.
  repeat (destruct H as [[= <- <-]|H]; [reflexivity|]). contradiction.
Qed.

Lemma inverse_no_row a :
  ~ 1 <= Change a <= 13 -> inverse a = NoInverse.
Proof.
  intros H. unfold inverse, OpAddBrick, OpAddVolume,
    OpDeleteBrick, OpDeleteVolume, OpExpandVolume, OpAddBlockVolume,
    OpDeleteBlockVolume, OpExpandBlockVolume, OpRemoveDevice, OpCloneVolume,
    OpSnapshotVolume, OpAddVolumeClone, OpChildOperation.
  cbv zeta.
  repeat match goal with
         | |- context [Z.eqb ?x ?y] => destruct (Z.eqb_spec x y); [lia|]
         end.
  reflexivity.
Qed.

Lemma inverse_child_inv a (cid : string) :
  inverse a = UnwindChild cid ->
  Change a = OpChildOperation /\ Delta a = GoString cid.
Proof.
  destruct a as [c id d]. unfold inverse, ExpandSize. cbn.
  repeat match goal with
         | |- context [Z.eqb c ?y] =>
             destruct (Z.eqb_spec c y) as [->|?]; cbn
         end; try discriminate.
  - destruct d; discriminate.
  - destruct d; discriminate.
  - destruct d; cbn; try discriminate. intros [= ->]. auto.
Qed.

(** An action that [Validate] accepts has the payload its inverse needs. *)
Lemma valid_not_malformed a :
  Validate (Change a) (Delta a) = true -> inverse a <> Malformed.
Proof.
  destruct a as [c id d]. unfold Validate, inverse, ExpandSize. cbn.
  repeat match goal with
         | |- context [Z.eqb c ?y] =>
             destruct (Z.eqb_spec c y) as [->|?]; cbn
         end; try discriminate;
    destruct d; cbn; discriminate.
Qed.

Lemma apply_inverse_benign (inv : Inverse) s :
  inv <> Malformed -> benign (apply_inverse preimage inv s).2.
Proof.
  unfold benign. destruct inv as [k|k|k v|k|cid| |]; cbn; intros H;
    try destruct (s !! k); cbn; auto. contradiction.
Qed.

Lemma walk_benign child l s :
  (forall a, In a l -> inverse a <> Malformed) ->
  (forall a cid s0, In a l -> inverse a = UnwindChild cid ->
     benign (child cid s0).1.2
     /\ Forall benign (flat_map trace_outcomes (child cid s0).2)) ->
  Forall benign (flat_map trace_outcomes (walk preimage child l s).2).
Proof.
  revert s. induction l as [|a l IH]; intros s Hok Hchild; cbn;
    [constructor|].
  assert (Forall benign (trace_outcomes (undo preimage child a s).2)) as Ha.
  { unfold undo.
    pose proof (Hok a (or_introl eq_refl)) as Hm.
    pose proof (fun cid => Hchild a cid s (or_introl eq_refl)) as Hc.
    destruct (inverse a) as [k|k|k v|k|cid| |] eqn:Hinv;
      try (pose proof (apply_inverse_benign _ s Hm) as Hb;
           destruct (apply_inverse preimage _ s) as [s' o]; cbn in *;
           constructor; [exact Hb | constructor]).
    destruct (Hc cid eq_refl) as [Hb Hsub].
    destruct (child cid s) as [[s' o] sub]. cbn in *.
    now constructor. }
  destruct (undo preimage child a s) as [s1 t].
  specialize (IH s1 (fun b Hb => Hok b (or_intror Hb))
                (fun b cid s0 Hb => Hchild b cid s0 (or_intror Hb))).
  destruct (walk preimage child l s1) as [s2 ts]. cbn in *.
  apply Forall_app. auto.
Qed.

(** A record of valid actions whose child links nest within the bound is
    unwound without a failure. *)
Lemma unwind_benign reg (depth : nat) l s :
  (forall a, In a l -> Validate (Change a) (Delta a) = true) ->
  (forall cid r c a, reg !! cid = Some (r, c) -> In a (Actions c) ->
     Validate (Change a) (Delta a) = true) ->
  nests_within reg depth l ->
  Forall benign
    (flat_map trace_outcomes (unwind preimage reg depth l s).2).
Proof.
  intros Hl Hreg. revert l s Hl.
  induction depth as [|d IH]; intros l s Hl Hnest;
    rewrite unwind_unfold; apply walk_benign;
    try (intros a Ha; apply valid_not_malformed, Hl; now apply in_rev).
  - intros a cid s0 Ha Hinv. apply inverse_child_inv in Hinv as [Hc Hd].
    unfold unwind_child.
    destruct (reg !! cid) as [[r c]|] eqn:Hcid.
    + exfalso. apply in_rev in Ha. exact (Hnest a cid r c Ha Hc Hd Hcid).
    + cbn. split; [right; right; reflexivity | constructor].
  - intros a cid s0 Ha Hinv. apply inverse_child_inv in Hinv as [Hc Hd].
    unfold unwind_child.
    destruct (reg !! cid) as [[r c]|] eqn:Hcid.
    + apply in_rev in Ha.
      pose proof (Hnest a cid r c Ha Hc Hd Hcid) as Hn. cbn in Hn.
      specialize (IH (Actions c) s0
                    (fun b Hb => Hreg cid r c b Hcid Hb) Hn).
      destruct (unwind preimage reg d (Actions c) s0) as [s' sub].
      cbn in *. split; [left; reflexivity | exact IH].
    + cbn. split; [right; right; reflexivity | constructor].
Qed.

(** A ChildOperation action is unwound through the child's own actions,
    last first, before the parent's earlier actions. *)
Example unwind_recurses_into_child :
  unwind preimage
    (<["op-c" := (1%nat,
                  {| Item := {| PendingItem_Id := "op-c" |}; Timestamp := 0;
                     Type_ := OperationCreateVolume;
                     Actions :=
                       [ {| Change := OpAddBrick; Id := "b1"; Delta := GoNil |};
                         {| Change := OpAddBrick; Id := "b2"; Delta := GoNil |}
                       ] |})]> ∅)
    1
    [ {| Change := OpAddVolume; Id := "v1"; Delta := GoNil |};
      {| Change := OpChildOperation; Id := "op-c"; Delta := GoString "op-c" |} ]
    (<[(Brick, "b1") := enrolled 1 "op-c"]>
       (<[(Brick, "b2") := enrolled 1 "op-c"]>
          (<[(Volume, "v1") := enrolled 1 "op-p"]> ∅)))
  = (∅,
     [ Step {| Change := OpChildOperation; Id := "op-c";
               Delta := GoString "op-c" |}
            (UnwindChild "op-c") Undone
            [ Step {| Change := OpAddBrick; Id := "b2"; Delta := GoNil |}
                   (DeleteEntity (Brick, "b2")) Undone [];
              Step {| Change := OpAddBrick; Id := "b1"; Delta := GoNil |}
                   (DeleteEntity (Brick, "b1")) Undone [] ];
       Step {| Change := OpAddVolume; Id := "v1"; Delta := GoNil |}
            (DeleteEntity (Volume, "v1")) Undone [] ]).
Proof. vm_compute. reflexivity. Qed.

(** The order matters: a volume deleted and then created again by the
    same operation is there after the rollback, as the pre-image. *)
Example unwind_order_is_observable :
  (unwind preimage ∅ 0
     [ {| Change := OpDeleteVolume; Id := "v1"; Delta := GoNil |};
       {| Change := OpAddVolume; Id := "v1"; Delta := GoNil |} ]
     (<[(Volume, "v1") := enrolled 1 "op-1"]> ∅)).1 !! (Volume, "v1")
  = Some (preimage (Volume, "v1")).
Proof. vm_compute. reflexivity. Qed.

Lemma create_volume_scenario_runs (depth : nat) :
  create_volume_scenario preimage depth
  = Ok ((∅, ∅),
        (Undone,
         [ Step {| Change := OpAddVolume; Id := "vol-2"; Delta := GoNil |}
                (DeleteEntity (Volume, "vol-2")) Undone [];
           Step {| Change := OpAddBrick; Id := "brick-1"; Delta := GoNil |}
                (DeleteEntity (Brick, "brick-1")) Undone [] ])).
Proof. destruct depth; vm_compute; reflexivity. Qed.

(** C6. [Rollback] loads the persisted record and unwinds its actions in
    strict reverse append order, applying to the entity stores the inverse
    the table of section 4.3 gives for each: the trace lists the recorded
    actions last appended first; the action appended last is undone before
    all others; a creation is undone by deleting the entity, a deletion by
    putting the pre-image back, an expansion by subtracting the stored
    delta from the recorded size, a device removal by re-attaching the
    device, a child link by unwinding the child's own actions, and a kind
    without a row changes nothing; an absent target is reported as
    [StaleAction].  A record of validated actions whose child links nest
    within the bound is unwound without a failure.  In the scenario of
    section 8 the volume "vol-2" is deleted first and the brick "brick-1"
    second. *)
Theorem Rollback_reverse_order (reg : Registry) :
  (forall (depth : nat) (id : string) (r : nat) op s,
      reg !! id = Some (r, op) ->
      Rollback preimage depth id (s, reg)
      = ((fold_left (release id) (Actions op)
            (unwind preimage reg depth (Actions op) s).1,
          delete id reg),
         (Undone, (unwind preimage reg depth (Actions op) s).2))
      /\ map trace_action (unwind preimage reg depth (Actions op) s).2
         = rev (Actions op))
  /\ (forall (depth : nat) l a s,
        unwind preimage reg depth (l ++ [a]) s
        = let '(s1, t1) := unwind preimage reg depth [a] s in
          let '(s2, t2) := unwind preimage reg depth l s1 in
          (s2, (t1 ++ t2)%list))
  /\ (forall (depth : nat) s, unwind preimage reg depth [] s = (s, []))
  /\ (forall (depth : nat) a (cls : EntityClass) s,
        In (Change a, cls)
           [ (OpAddBrick, Brick); (OpAddVolume, Volume);
             (OpAddBlockVolume, BlockVolume); (OpCloneVolume, Volume);
             (OpSnapshotVolume, Volume); (OpAddVolumeClone, Volume) ] ->
        unwind preimage reg depth [a] s
        = (delete (cls, Id a) s,
           [ Step a (DeleteEntity (cls, Id a))
               match s !! (cls, Id a) with
               | Some _ => Undone
               | None => Raised StaleAction
               end [] ]))
  /\ (forall (depth : nat) a (cls : EntityClass) s,
        In (Change a, cls)
           [ (OpDeleteBrick, Brick); (OpDeleteVolume, Volume);
             (OpDeleteBlockVolume, BlockVolume) ] ->
        unwind preimage reg depth [a] s
        = (<[(cls, Id a) := preimage (cls, Id a)]> s,
           [ Step a (RecreateEntity (cls, Id a)) Undone [] ]))
  /\ (forall (depth : nat) a (cls : EntityClass) (v : int) s,
        In (Change a, cls)
           [ (OpExpandVolume, Volume);
             (OpExpandBlockVolume, BlockVolume) ] ->
        Delta a = GoInt v ->
        unwind preimage reg depth [a] s
        = (match s !! (cls, Id a) with
           | Some e =>
               <[(cls, Id a) :=
                   {| entity_size := entity_size e - v;
                      entity_attached := entity_attached e;
                      entity_pending := entity_pending e |}]> s
           | None => s
           end,
           [ Step a (ShrinkEntity (cls, Id a) v)
               match s !! (cls, Id a) with
               | Some _ => Undone
               | None => Raised StaleAction
               end [] ]))
  /\ (forall (depth : nat) a s,
        Change a = OpExpandBlockVolume -> Delta a = GoNil ->
        unwind preimage reg depth [a] s
        = (s,
           [ Step a (ShrinkEntity (BlockVolume, Id a) 0)
               match s !! (BlockVolume, Id a) with
               | Some _ => Undone
               | None => Raised StaleAction
               end [] ]))
  /\ (forall (depth : nat) a s,
        Change a = OpRemoveDevice ->
        unwind preimage reg depth [a] s
        = (match s !! (Device, Id a) with
           | Some e =>
               <[(Device, Id a) :=
                   {| entity_size := entity_size e;
                      entity_attached := true;
                      entity_pending := entity_pending e |}]> s
           | None => s
           end,
           [ Step a (ReattachDevice (Device, Id a))
               match s !! (Device, Id a) with
               | Some _ => Undone
               | None => Raised StaleAction
               end [] ]))
  /\ (forall (d : nat) a (cid : string) (r : nat) childop s,
        Change a = OpChildOperation -> Delta a = GoString cid ->
        reg !! cid = Some (r, childop) ->
        unwind preimage reg (S d) [a] s
        = ((unwind preimage reg d (Actions childop) s).1,
           [ Step a (UnwindChild cid) Undone
               (unwind preimage reg d (Actions childop) s).2 ]))
  /\ (forall (depth : nat) a (cid : string) s,
        Change a = OpChildOperation -> Delta a = GoString cid ->
        reg !! cid = None ->
        unwind preimage reg depth [a] s
        = (s, [ Step a (UnwindChild cid) (Raised StaleAction) [] ]))
  /\ (forall (depth : nat) a s,
        ~ 1 <= Change a <= 13 ->
        unwind preimage reg depth [a] s = (s, [ Step a NoInverse Skipped [] ]))
  /\ (forall (depth : nat) l s,
        (forall a, In a l -> Validate (Change a) (Delta a) = true) ->
        (forall cid r c a, reg !! cid = Some (r, c) -> In a (Actions c) ->
           Validate (Change a) (Delta a) = true) ->
        nests_within reg depth l ->
        Forall benign
          (flat_map trace_outcomes (unwind preimage reg depth l s).2))
  /\ (forall depth : nat,
        create_volume_scenario preimage depth
        = Ok ((∅, ∅),
              (Undone,
               [ Step {| Change := OpAddVolume; Id := "vol-2";
                         Delta := GoNil |}
                      (DeleteEntity (Volume, "vol-2")) Undone [];
                 Step {| Change := OpAddBrick; Id := "brick-1";
                         Delta := GoNil |}
                      (DeleteEntity (Brick, "brick-1")) Undone [] ]))).
Proof.
  repeat match goal with |- _ /\ _ => split end.
  - intros depth id r op s H.
    split; [exact (Rollback_persisted depth id r op s reg H)|].
    rewrite unwind_unfold. apply walk_in_order.
  - intros. apply unwind_snoc.
  - intros. now rewrite unwind_unfold.
  - intros depth a cls s H. rewrite unwind_single. unfold undo.
    rewrite (inverse_creation_row _ _ H). cbn.
    destruct (s !! (cls, Id a)) eqn:E; cbn; [reflexivity|].
    now rewrite delete_id.
  - intros depth a cls s H. rewrite unwind_single. unfold undo.
    now rewrite (inverse_deletion_row _ _ H).
  - intros depth a cls v s H Hd. rewrite unwind_single. unfold undo.
    rewrite (inverse_expansion_row _ _ _ H Hd). cbn.
    now destruct (s !! (cls, Id a)).
  - intros depth a s Hc Hd. rewrite unwind_single. unfold undo.
    assert (inverse a = ShrinkEntity (BlockVolume, Id a) 0) as ->.
    { destruct a as [c id d]. cbn in *. subst. reflexivity. }
    cbn. destruct (s !! (BlockVolume, Id a)) as [e|] eqn:E; cbn;
      [|reflexivity].
    rewrite insert_id; [reflexivity|]. rewrite E. f_equal.
    destruct e. unfold resize. cbn. f_equal. lia.
  - intros depth a s Hc. rewrite unwind_single. unfold undo.
    assert (inverse a = ReattachDevice (Device, Id a)) as ->.
    { destruct a as [c id d]. cbn in *. subst. reflexivity. }
    cbn. now destruct (s !! (Device, Id a)).
  - intros d a cid r childop s Hc Hd Hcid. rewrite unwind_single.
    unfold undo.
    assert (inverse a = UnwindChild cid) as ->.
    { destruct a as [c id dl]. cbn in *. subst. reflexivity. }
    unfold unwind_child. rewrite Hcid.
    now destruct (unwind preimage reg d (Actions childop) s).
  - intros depth a cid s Hc Hd Hcid. rewrite unwind_single. unfold undo.
    assert (inverse a = UnwindChild cid) as ->.
    { destruct a as [c id dl]. cbn in *. subst. reflexivity. }
    unfold unwind_child. now rewrite Hcid.
  - intros depth a s H. rewrite unwind_single. unfold undo.
    now rewrite (inverse_no_row _ H).
  - intros depth l s. apply unwind_benign.
  - apply create_volume_scenario_runs.
Qed.

(** *** Rolling back twice *)

(** Once the rollback is over no entity the operation names is still
    locked by it. *)
Lemma release_clears (opid : string) l s (k : EntityKey) (e : Entity) :
  (exists a, In a l /\ target a = Some k) ->
  fold_left (release opid) l s !! k = Some e ->
  entity_pending e <> Some opid.
Proof.
  assert (forall l0 s0,
             (forall e0, s0 !! k = Some e0 -> entity_pending e0 <> Some opid) ->
             forall e0, fold_left (release opid) l0 s0 !! k = Some e0 ->
                        entity_pending e0 <> Some opid) as Hkeep.
  { induction l0 as [|b l0 IH]; intros s0 Hs0; cbn; [exact Hs0|].
    apply IH. intros e0. unfold release.
    destruct (target b) as [kb|]; [|apply Hs0].
    destruct (s0 !! kb) as [eb|] eqn:Eb; [|apply Hs0].
    destruct (entity_pending eb) as [owner|] eqn:Ep; [|apply Hs0].
    destruct (String.eqb_spec owner opid); [|apply Hs0].
    destruct (decide (kb = k)) as [->|Hne].
    - rewrite lookup_insert_eq. intros [= <-]. discriminate.
    - rewrite lookup_insert_ne by exact Hne. apply Hs0. }
  revert s. induction l as [|b l IH]; intros s [a [Ha Hk]]; [easy|].
  cbn. destruct Ha as [->|Ha]; [|apply IH; eauto].
  apply Hkeep. intros e0. unfold release. rewrite Hk.
  destruct (s !! k) as [ek|] eqn:Ek; [|congruence].
  destruct (entity_pending ek) as [owner|] eqn:Ep.
  - destruct (String.eqb_spec owner opid) as [->|Hne].
    + rewrite lookup_insert_eq. intros [= <-]. discriminate.
    + rewrite Ek. intros [= <-]. rewrite Ep. congruence.
  - rewrite Ek. intros [= <-]. rewrite Ep. discriminate.
Qed.


(** *** A rollback interrupted and retried *)

Lemma creation_class_inverse a :
  creation_class a = true -> exists k, inverse a = DeleteEntity k.
Proof.
  unfold creation_class. destruct (inverse a); try discriminate. eauto.
Qed.

Lemma undo_creation child a s :
  creation_class a = true ->
  (undo preimage child a s).1 = forget s a
  /\ benign (trace_outcome (undo preimage child a s).2)
  /\ trace_outcomes (undo preimage child a s).2
     = [trace_outcome (undo preimage child a s).2].
Proof.
  intros Hc. destruct (creation_class_inverse a Hc) as [k Hinv].
  unfold undo, forget, target, benign. rewrite Hinv. cbn.
  destruct (s !! k) eqn:Hk; cbn; [auto|].
  rewrite delete_id by exact Hk. auto.
Qed.

Lemma walk_creations child l s :
  forallb creation_class l = true ->
  (walk preimage child l s).1 = fold_left forget l s
  /\ Forall benign (flat_map trace_outcomes (walk preimage child l s).2).
Proof.
  revert s. induction l as [|a l IH]; intros s Hl; cbn;
    [split; [reflexivity | constructor]|].
  cbn in Hl. apply andb_prop in Hl as [Ha Hl].
  destruct (undo_creation child a s Ha) as (Hs & Hb & Ho).
  destruct (undo preimage child a s) as [s1 t]. cbn in Hs, Hb, Ho.
  destruct (IH s1 Hl) as [IH1 IH2].
  destruct (walk preimage child l s1) as [s2 ts]. cbn in *.
  subst s1. split; [exact IH1|]. rewrite Ho. now constructor.
Qed.

Lemma forget_swap s a b : forget (forget s a) b = forget (forget s b) a.
Proof.
  unfold forget. destruct (target a), (target b); try reflexivity.
  apply delete_delete.
Qed.

Lemma forget_twice s a : forget (forget s a) a = forget s a.
Proof.
  unfold forget. destruct (target a); [apply delete_delete_eq | reflexivity].
Qed.

Lemma forget_absorbed l a s :
  In a l -> fold_left forget l (forget s a) = fold_left forget l s.
Proof.
  revert s. induction l as [|b l IH]; intros s Ha; [easy|]. cbn.
  destruct Ha as [->|Ha]; [now rewrite forget_twice|].
  rewrite forget_swap. now apply IH.
Qed.

Lemma forget_prefix_absorbed l p s :
  (forall a, In a p -> In a l) ->
  fold_left forget l (fold_left forget p s) = fold_left forget l s.
Proof.
  revert s. induction p as [|a p IH]; intros s Hp; [reflexivity|]. cbn.
  rewrite IH by (intros b Hb; apply Hp; now right).
  apply forget_absorbed, Hp. now left.
Qed.

(** The retry that section 4.3 asks for.  When a rollback of creations
    stopped after any part of the walk, with the record still persisted,
    a new [Rollback] leaves the stores as an uninterrupted one would
    have, and reports no failure. *)
Lemma Rollback_retried_on_creations (depth : nat) (id : string) (r : nat)
    op s reg (walked rest : list PendingOperationAction) :
  reg !! id = Some (r, op) ->
  forallb creation_class (Actions op) = true ->
  rev (Actions op) = (walked ++ rest)%list ->
  (Rollback preimage depth id
     ((walk preimage (unwind_child preimage reg depth) walked s).1, reg)).1
  = (Rollback preimage depth id (s, reg)).1
  /\ Forall benign
       (flat_map trace_outcomes
          (Rollback preimage depth id
             ((walk preimage (unwind_child preimage reg depth) walked s).1,
              reg)).2.2).
Proof.
  intros Hid Hc Hsplit.
  assert (forallb creation_class (rev (Actions op)) = true) as Hrev.
  { rewrite forallb_forall in *. intros a Ha. apply Hc. now apply in_rev. }
  assert (forallb creation_class walked = true) as Hw.
  { rewrite Hsplit, forallb_app in Hrev. now apply andb_prop in Hrev. }
  rewrite !(Rollback_persisted _ _ _ _ _ _ Hid). cbn [fst snd].
  rewrite !unwind_unfold.
  destruct (walk_creations (unwind_child preimage reg depth) walked s Hw)
    as [-> _].
  destruct (walk_creations (unwind_child preimage reg depth)
              (rev (Actions op)) (fold_left forget walked s) Hrev)
    as [-> Hb].
  destruct (walk_creations (unwind_child preimage reg depth)
              (rev (Actions op)) s Hrev) as [-> _].
  split; [|exact Hb].
  rewrite forget_prefix_absorbed; [reflexivity|].
  intros a Ha. rewrite Hsplit. apply in_or_app. now left.
Qed.

End RollbackProperties.

(** The expansion of section 8, rolled back twice: the volume goes from
    15 back to 10 and stays there. *)
Example Rollback_twice_of_expansion :
  entity_size <$>
    (Rollback no_preimage 2 "op-1" expanded_state).1.1 !! (Volume, "vol-1")
  = Some 10
  /\ entity_size <$>
       (Rollback no_preimage 2 "op-1"
          (Rollback no_preimage 2 "op-1" expanded_state).1).1.1
         !! (Volume, "vol-1")
     = Some 10
  /\ (Rollback no_preimage 2 "op-1"
        (Rollback no_preimage 2 "op-1" expanded_state).1).2
     = (Raised StaleAction, []).
Proof. repeat split; vm_compute; reflexivity. Qed.

(** ** Further properties of the [Name] methods and of [ExpandSize] *)

Section NameRanges.

Ltac name_cases :=
  repeat match goal with
         | |- context [Z.eqb ?x ?y] => destruct (Z.eqb_spec x y)
         end.

(** Whatever the integer, the name is one of the declared constants'. *)
Lemma operation_name_listed (v : PendingOperationType) :
  In (PendingOperationType_Name v) operation_names.
Proof.
  unfold PendingOperationType_Name; name_cases;
    apply list_elem_of_In, (bool_decide_unpack _); vm_compute; exact I.
Qed.

Lemma change_name_listed (c : PendingChangeType) :
  In (PendingChangeType_Name c) change_names.
Proof.
  unfold PendingChangeType_Name; name_cases;
    apply list_elem_of_In, (bool_decide_unpack _); vm_compute; exact I.
Qed.

(** A check that passes on the finitely many names passes on every
    result of [Name]. *)
Lemma operation_names_forall (P : string -> bool) :
  forallb P operation_names = true ->
  forall v, P (PendingOperationType_Name v) = true.
Proof.
  rewrite forallb_forall. intros H v. apply H, operation_name_listed.
Qed.

Lemma change_names_forall (P : string -> bool) :
  forallb P change_names = true ->
  forall c, P (PendingChangeType_Name c) = true.
Proof.
  rewrite forallb_forall. intros H c. apply H, change_name_listed.
Qed.

Lemma forallb_pairs {A B} (P : A -> B -> bool) (l1 : list A) (l2 : list B) :
  forallb (fun x => forallb (P x) l2) l1 = true ->
  forall x y, In x l1 -> In y l2 -> P x y = true.
Proof.
  rewrite forallb_forall. intros H x y Hx Hy.
  specialize (H x Hx). rewrite forallb_forall in H. auto.
Qed.

Lemma operation_name_unknown_iff (v : PendingOperationType) :
  PendingOperationType_Name v = "unknown" <-> ~ 1 <= v <= 9.
Proof.
  unfold PendingOperationType_Name, OperationCreateVolume,
    OperationDeleteVolume, OperationExpandVolume, OperationCreateBlockVolume,
    OperationDeleteBlockVolume, OperationExpandBlockVolume,
    OperationRemoveDevice, OperationCloneVolume, OperationBrickEvict.
  name_cases; split; intros H; first [discriminate H | lia | reflexivity].
Qed.

Lemma change_name_unknown_iff (c : PendingChangeType) :
  PendingChangeType_Name c = "Unknown" <-> ~ 1 <= c <= 14.
Proof.
  unfold PendingChangeType_Name, OpAddBrick, OpAddVolume,
    OpDeleteBrick, OpDeleteVolume, OpExpandVolume, OpAddBlockVolume,
    OpDeleteBlockVolume, OpExpandBlockVolume, OpRemoveDevice, OpCloneVolume,
    OpSnapshotVolume, OpAddVolumeClone, OpChildOperation, OpParentOperation.
  name_cases; split; intros H; first [discriminate H | lia | reflexivity].
Qed.

(** X1. Two operation types have the same name exactly when they are the
    same value or when neither is one of the nine constants with a case
    of its own (each is [OperationUnknown] or undeclared). *)
Theorem operation_name_eq_iff (v w : PendingOperationType) :
  PendingOperationType_Name v = PendingOperationType_Name w
  <-> v = w \/ (~ 1 <= v <= 9 /\ ~ 1 <= w <= 9).
Proof.
  split.
  - intros Heq.
    destruct (decide (1 <= v <= 9)) as [Hv|Hv];
      destruct (decide (1 <= w <= 9)) as [Hw|Hw].
    + left. apply (NoDup_map_injective _ _ operation_names_nodup);
        [apply declared_operation_types_range; lia
        |apply declared_operation_types_range; lia | exact Heq].
    + exfalso. apply operation_name_unknown_iff in Hw.
      rewrite Hw in Heq. now apply operation_name_unknown_iff in Heq.
    + exfalso. apply operation_name_unknown_iff in Hv.
      rewrite Hv in Heq. symmetry in Heq.
      now apply operation_name_unknown_iff in Heq.
    + right. auto.
  - intros [->|[Hv Hw]]; [reflexivity|].
    apply operation_name_unknown_iff in Hv, Hw. congruence.
Qed.

(** X2. Two change types have the same name exactly when they are the
    same value or when neither is one of the fourteen constants with a
    case of its own (each is [OpUnknown] or undeclared). *)
Theorem change_name_eq_iff (c d : PendingChangeType) :
  PendingChangeType_Name c = PendingChangeType_Name d
  <-> c = d \/ (~ 1 <= c <= 14 /\ ~ 1 <= d <= 14).
Proof.
  split.
  - intros Heq.
    destruct (decide (1 <= c <= 14)) as [Hc|Hc];
      destruct (decide (1 <= d <= 14)) as [Hd|Hd].
    + left. apply (NoDup_map_injective _ _ change_names_nodup);
        [apply declared_change_types_range; lia
        |apply declared_change_types_range; lia | exact Heq].
    + exfalso. apply change_name_unknown_iff in Hd.
      rewrite Hd in Heq. now apply change_name_unknown_iff in Heq.
    + exfalso. apply change_name_unknown_iff in Hc.
      rewrite Hc in Heq. symmetry in Heq.
      now apply change_name_unknown_iff in Heq.
    + right. auto.
  - intros [->|[Hc Hd]]; [reflexivity|].
    apply change_name_unknown_iff in Hc, Hd. congruence.
Qed.

(** X3. No operation type and change type share a name, whatever the two
    integers: the two methods have disjoint ranges. *)
Theorem operation_and_change_names_disjoint
    (v : PendingOperationType) (c : PendingChangeType) :
  PendingOperationType_Name v <> PendingChangeType_Name c.
Proof.
  assert (forallb (fun s => forallb (fun t => negb (String.eqb s t))
                              change_names) operation_names = true) as H
      by (vm_compute; reflexivity).
  pose proof (forallb_pairs _ _ _ H _ _ (operation_name_listed v)
                (change_name_listed c)) as Hne.
  apply negb_true_iff, String.eqb_neq in Hne. exact Hne.
Qed.

(** X4. Every result of [PendingOperationType.Name] is made of lower-case
    letters and hyphens only. *)
Theorem operation_name_hyphenated_lower (v : PendingOperationType) :
  hyphenated_lower (PendingOperationType_Name v) = true.
Proof. apply operation_names_forall. vm_compute. reflexivity. Qed.

(** X5. Every result of [PendingChangeType.Name] is a capital letter
    followed by lower-case letters and spaces only. *)
Theorem change_name_capitalised_phrase (c : PendingChangeType) :
  capitalised_phrase (PendingChangeType_Name c) = true.
Proof. apply change_names_forall. vm_compute. reflexivity. Qed.

(** X6. No operation name is a proper prefix of another: one name is a
    prefix of a second exactly when the two are equal. *)
Theorem operation_names_prefix_free (v w : PendingOperationType) :
  String.prefix (PendingOperationType_Name v) (PendingOperationType_Name w)
  = true
  <-> PendingOperationType_Name v = PendingOperationType_Name w.
Proof.
  assert (forallb (fun s => forallb (fun t =>
            Bool.eqb (String.prefix s t) (String.eqb s t))
            operation_names) operation_names = true) as H
      by (vm_compute; reflexivity).
  pose proof (forallb_pairs _ _ _ H _ _ (operation_name_listed v)
                (operation_name_listed w)) as Hp.
  apply Bool.eqb_prop in Hp. rewrite Hp. apply String.eqb_eq.
Qed.

(** X7. Among the change names exactly one is a proper prefix of another:
    "Expand volume" ([OpExpandVolume]) of "Expand volume to"
    ([OpAddVolumeClone]). *)
Theorem change_names_prefix_iff (c d : PendingChangeType) :
  String.prefix (PendingChangeType_Name c) (PendingChangeType_Name d) = true
  <-> PendingChangeType_Name c = PendingChangeType_Name d
      \/ (c = OpExpandVolume /\ d = OpAddVolumeClone).
Proof.
  assert (forallb (fun s => forallb (fun t =>
            Bool.eqb (String.prefix s t)
              (String.eqb s t
               || (String.eqb s (PendingChangeType_Name OpExpandVolume)
                   && String.eqb t (PendingChangeType_Name OpAddVolumeClone))))
            change_names) change_names = true) as H
      by (vm_compute; reflexivity).
  pose proof (forallb_pairs _ _ _ H _ _ (change_name_listed c)
                (change_name_listed d)) as Hp.
  apply Bool.eqb_prop in Hp. rewrite Hp.
  rewrite orb_true_iff, andb_true_iff, !String.eqb_eq, !change_name_eq_iff.
  unfold OpExpandVolume, OpAddVolumeClone. split.
  - intros [H1|[[H2|H2] [H3|H3]]]; auto; lia.
  - intros [H1|[-> ->]]; auto.
Qed.

(** X8. The names are short: between 7 and 19 characters for an
    operation type, between 7 and 27 for a change type. *)
Theorem Name_length_bounds (v : PendingOperationType) (c : PendingChangeType) :
  (7 <= String.length (PendingOperationType_Name v) <= 19)%nat
  /\ (7 <= String.length (PendingChangeType_Name c) <= 27)%nat.
Proof.
  pose proof (operation_names_forall
                (fun s => Nat.leb 7 (String.length s)
                          && Nat.leb (String.length s) 19)
                ltac:(vm_compute; reflexivity) v) as Hv.
  pose proof (change_names_forall
                (fun s => Nat.leb 7 (String.length s)
                          && Nat.leb (String.length s) 27)
                ltac:(vm_compute; reflexivity) c) as Hc.
  cbv beta in Hv, Hc.
  apply andb_true_iff in Hv as [Hv1 Hv2], Hc as [Hc1 Hc2].
  apply Nat.leb_le in Hv1, Hv2, Hc1, Hc2. auto.
Qed.

End NameRanges.

Section ExpandSizeFurther.

(** X9. The integer [ExpandSize] returns is 0 exactly when the call fails
    or the delta holds the [int] 0: a non-zero result is always a stored
    delta, and a zero result alone does not tell a failure from an
    expansion by 0. *)
Theorem ExpandSize_zero_iff (a : PendingOperationAction) :
  fst (ExpandSize a) = 0
  <-> snd (ExpandSize a) <> None \/ Delta a = GoInt 0.
Proof.
  destruct (ExpandSize_cases a) as [(w & Hc & Hd & Hr)|[Hno Hr]];
    rewrite Hr; cbn.
  - split.
    + intros ->. right. exact Hd.
    + intros [H|H]; [now contradiction H|]. rewrite Hd in H.
      now injection H.
  - split; [|reflexivity]. intros _. left. discriminate.
Qed.

(** X10. [ExpandSize] succeeds with [v] exactly on the actions whose
    change type is named "Expand volume" and whose delta holds the [int]
    [v]; the kinds named "Expand volume to" and "Expand block volume" are
    refused. *)
Theorem ExpandSize_succeeds_iff_named (a : PendingOperationAction) (v : int) :
  ExpandSize a = (v, None)
  <-> PendingChangeType_Name (Change a) = "Expand volume"
      /\ Delta a = GoInt v.
Proof.
  assert (PendingChangeType_Name (Change a) = "Expand volume"
          <-> Change a = OpExpandVolume) as Hname.
  { change "Expand volume" with (PendingChangeType_Name OpExpandVolume).
    rewrite change_name_eq_iff. unfold OpExpandVolume. lia. }
  rewrite Hname.
  destruct (ExpandSize_cases a) as [(w & Hc & Hd & Hr)|[Hno Hr]]; rewrite Hr.
  - split.
    + intros [= ->]. auto.
    + intros [_ Hv]. rewrite Hd in Hv. now injection Hv as ->.
  - split; [discriminate|].
    intros [Hc Hd]. destruct Hno as [Hno|Hno]; [easy | now apply Hno in Hd].
Qed.

End ExpandSizeFurther.
